(** * SqlCache: a key-value cache over a relational table

    A shallow embedding of [src/cache.ts] (class [SqlCache]) together with
    the properties of its read/expiry policy, TTL resolution, construction
    checks and error propagation.

    Modelling conventions.
    - JavaScript values that the code inspects for truthiness or passes
      through unchanged (query errors, the [ttl] option, query parameters)
      are values of [Value].
    - The Numbers the code computes with (the clock reading, [expiry_ts])
      are integers; an integer [Z] stands for the Number with that value,
      and arithmetic on them is that of IEEE-754 doubles: a result is
      rounded to 53 significant bits, to nearest, ties to even.
    - Objects used as property bags ([KeyValueCacheSetOptions], the object
      handed to [INSERT ... SET ?]) are [gmap string Value]: a property is
      either absent or present, and a present property may hold
      [VUndefined].
    - The injected connection is a capability [Connection]: given the
      query text and its parameters it answers the callback once with
      [(error, results)] and may change the outside world [Env] (the
      database, the wall clock) while doing so.
    - [async] methods are computations in [Async]: they thread the outside
      world and the list of calls made on the connection, and settle as
      [Fulfilled] or [Rejected]. *)

From stdpp Require Import base strings list gmap.
From Stdlib Require Import ZArith Lia.

Local Open Scope string_scope.
Local Open Scope list_scope.
Local Open Scope Z_scope.

Module Cache.

(** ** JavaScript values *)

Inductive Value : Type :=
| VUndefined
| VNull
| VBool (b : bool)
| VNum (n : Z)
| VStr (s : string)
| VError (message : string).

#[global] Instance Value_eq_dec : EqDecision Value.
Proof. solve_decision. Defined.

(** [if (v)]: undefined, null, false, 0 and the empty string are falsy;
    every object (here: [Error] objects) is truthy. *)
Definition truthy (v : Value) : bool :=
  match v with
  | VUndefined | VNull => false
  | VBool b => b
  | VNum n => negb (n =? 0)
  | VStr s => negb (String.eqb s "")
  | VError _ => true
  end.

(** [{ ...a, ...b }]: own properties of [b] win over those of [a]. *)
Definition spread (a b : gmap string Value) : gmap string Value := b ∪ a.

(** Reading a property that may be absent: [o.p]. *)
Definition prop (o : gmap string Value) (p : string) : Value :=
  default VUndefined (o !! p).

(** ** JavaScript Numbers *)

(** The multiple of [m] nearest to [a], a tie going to the even
    quotient. *)
Definition nearest_even (a m : Z) : Z :=
  let q := a / m in
  let r := a mod m in
  if 2 * r <? m then q * m
  else if m <? 2 * r then (q + 1) * m
  else if Z.even q then q * m else (q + 1) * m.

(** The spacing of the doubles at the magnitude of [a]: 1 below [2^53],
    and twice as wide with every further binary order of magnitude. *)
Definition ulp (a : Z) : Z := 2 ^ Z.max 0 (Z.log2 a - 52).

(** The double nearest to an integer.  A magnitude beyond the largest
    double is kept as the integer above it, which compares with every
    double as [Infinity] does. *)
Definition to_double (x : Z) : Z :=
  if x <? 0 then - nearest_even (- x) (ulp (- x)) else nearest_even x (ulp x).

(** [a * b]: the exact product, rounded. *)
Definition Number_mul (a b : Z) : Z := to_double (a * b).

(** [Number.MAX_SAFE_INTEGER] *)
Definition MAX_SAFE_INTEGER : Z := 2 ^ 53 - 1.

(** ** The connection and what travels over it *)

(** One row of the read query,
    typed [{ key: string; value: string; expiry_ts: number }]. *)
Record Row : Type := {
  key : string;
  value : string;
  expiry_ts : Z
}.

(** [Date.now() >= row.expiry_ts * 1000], where [t] is what [Date.now()]
    returned. *)
Definition isExpired (t : Z) (row : Row) : bool :=
  t >=? Number_mul (expiry_ts row) 1000.

(** What the callback receives as [results]: nothing ([undefined]/[null]),
    the rows of a [SELECT], or the packet acknowledging a write. *)
Inductive QueryResults : Type :=
| RMissing
| RRows (rows : list Row)
| ROkPacket (affectedRows : Z).

(** The second argument of [client.query]: [[key]] or [{ key, value, ttl }]. *)
Inductive QueryData : Type :=
| DArray (elems : list Value)
| DObject (props : gmap string Value).

#[global] Instance QueryData_eq_dec : EqDecision QueryData.
Proof. solve_decision. Defined.

(** A call [client.query(text, data, callback)] as recorded on the client. *)
Record Call : Type := {
  text : string;
  data : QueryData
}.

#[global] Instance Call_eq_dec : EqDecision Call.
Proof. solve_decision. Defined.

(** The arguments the callback is invoked with: [(error, results)]. *)
Record Reply : Type := {
  error : Value;
  results : QueryResults
}.

(** How an [async] call settles. *)
Inductive Settled (A : Type) : Type :=
| Fulfilled (a : A)
| Rejected (reason : Value).
Arguments Fulfilled {A} a.
Arguments Rejected {A} reason.

(** What a function call that may [throw] completes with. *)
Inductive Completion (A : Type) : Type :=
| Normal (a : A)
| Throw (e : Value).
Arguments Normal {A} a.
Arguments Throw {A} e.

Section WithEnv.

(** The outside world: everything behind the connection plus the clock
    that [Date.now()] reads (milliseconds since the epoch). *)
Variable Env : Type.
Variable now : Env -> Z.

(** [client.query]: answers the callback once and may change the world. *)
Definition Connection : Type := string -> QueryData -> Env -> Reply * Env.

Record World : Type := {
  env : Env;
  calls : list Call
}.

Definition Async (A : Type) : Type := World -> Settled A * World.

Definition ret {A} (a : A) : Async A := fun w => (Fulfilled a, w).

(** [await c] followed by the rest of the [async] body: a rejection of [c]
    is thrown at the [await] and, uncaught, rejects the whole body. *)
Definition await {A B} (c : Async A) (k : A -> Async B) : Async B :=
  fun w =>
    match c w with
    | (Fulfilled a, w') => k a w'
    | (Rejected e, w') => (Rejected e, w')
    end.

Notation "x <- 'await' c ; k" := (await c (fun x => k))
  (at level 200, c at level 100, k at level 200, right associativity).

(** [Date.now()]: the reading of the clock, as a Number. *)
Definition Date_now : Async Z :=
  fun w => (Fulfilled (to_double (now (env w))), w).

(** ** The class *)

Record SqlCacheOptions : Type := {
  client : option Connection;
  databaseName : option string;
  tableName : option string;
  deleteExpiredItems : option bool
}.

Record SqlCache : Type := {
  this_client : Connection;
  this_databaseName : string;
  this_tableName : string;
  this_deleteExpiredItems : bool;
  this_defaultSetOptions : gmap string Value
}.

(** [new SqlCache(options)]; [None] is a call without a configuration
    object.  A string option is truthy when present and non-empty. *)
Definition constructor (options : option SqlCacheOptions) : Completion SqlCache :=
  match options with
  | None =>
      Throw (VError "configuration object with `client` and `databaseName` must be set when initializing SqlCache")
  | Some options =>
      match client options with
      | None => Throw (VError "`client` must be set when initializing SqlCache")
      | Some c =>
          match databaseName options with
          | None | Some "" =>
              Throw (VError "`databaseName` must be set when initializing SqlCache")
          | Some db =>
              Normal {|
                this_client := c;
                this_databaseName := db;
                this_tableName :=
                  match tableName options with
                  | None | Some "" => "cache"
                  | Some t => t
                  end;
                this_deleteExpiredItems :=
                  match deleteExpiredItems options with
                  | None => true
                  | Some b => b
                  end;
                this_defaultSetOptions := {[ "ttl" := VNum 300 ]}
              |}
          end
      end
  end.

(** [`${this.databaseName}.${this.tableName}`] *)
Definition table (this : SqlCache) : string :=
  this_databaseName this +:+ "." +:+ this_tableName this.

Definition select_text (this : SqlCache) : string :=
  "
      SELECT
        value,
        (ttl + UNIX_TIMESTAMP(created_at)) as expiry_ts
      FROM " +:+ table this +:+ " as cacheTable
      WHERE cacheTable.key = ?
      ".

Definition insert_text (this : SqlCache) : string :=
  "INSERT INTO " +:+ table this +:+ " SET ?".

Definition delete_text (this : SqlCache) : string :=
  "DELETE FROM " +:+ table this +:+ " as cacheTable WHERE cacheTable.key = ?".

(** Convert a mysql query to a promise: the call is made on the client,
    a truthy [error] rejects with it, anything else resolves with
    [results]. *)
Definition promisifyQuery (this : SqlCache) (query : string) (data : QueryData)
  : Async QueryResults :=
  fun w =>
    let '(r, e) := this_client this query data (env w) in
    let w' := {| env := e; calls := calls w ++ [{| text := query; data := data |}] |} in
    if truthy (error r) then (Rejected (error r), w')
    else (Fulfilled (results r), w').

(** Delete a cached item. *)
Definition delete (this : SqlCache) (key : string) : Async bool :=
  _ <- await promisifyQuery this (delete_text this) (DArray [VStr key]);
  ret true.

(** Retrieve an item from the cache; [None] is [undefined].
    [data && data.length] holds exactly for a non-empty array of rows, and
    [&&] reads the clock only when [deleteExpiredItems] is on. *)
Definition get (this : SqlCache) (key : string) : Async (option string) :=
  data <- await promisifyQuery this (select_text this) (DArray [VStr key]);
  match data with
  | RRows (row :: _) =>
      expired <- await
        (if this_deleteExpiredItems this
         then (t <- await Date_now; ret (isExpired t row))
         else ret false);
      if (expired : bool)
      then (_ <- await delete this key; ret None)
      else ret (Some (value row))
  | _ => ret None
  end.

(** [const { ttl } = { ...this.defaultSetOptions, ...options }] *)
Definition resolve_ttl (this : SqlCache) (options : gmap string Value) : Value :=
  prop (spread (this_defaultSetOptions this) options) "ttl".

(** Put a new item in the cache.  [options = None] is a call without the
    third argument, which the default parameter turns into [{}]. *)
Definition set (this : SqlCache) (key value : string)
    (options : option (gmap string Value)) : Async unit :=
  let options := default ∅ options in
  let ttl := resolve_ttl this options in
  _ <- await promisifyQuery this (insert_text this)
         (DObject {[ "key" := VStr key; "value" := VStr value; "ttl" := ttl ]});
  ret tt.

End WithEnv.

Arguments Connection Env : clear implicits.
Arguments World Env : clear implicits.
Arguments env {Env} _.
Arguments calls {Env} _.
Arguments Async Env A : clear implicits.
Arguments ret {Env A} a _.
Arguments await {Env A B} c k _.
Arguments Date_now {Env} now _.
Arguments SqlCacheOptions Env : clear implicits.
Arguments client {Env} _.
Arguments databaseName {Env} _.
Arguments tableName {Env} _.
Arguments deleteExpiredItems {Env} _.
Arguments SqlCache Env : clear implicits.
Arguments this_client {Env} _.
Arguments this_databaseName {Env} _.
Arguments this_tableName {Env} _.
Arguments this_deleteExpiredItems {Env} _.
Arguments this_defaultSetOptions {Env} _.
Arguments constructor {Env} options.
Arguments table {Env} this.
Arguments select_text {Env} this.
Arguments insert_text {Env} this.
Arguments delete_text {Env} this.
Arguments promisifyQuery {Env} this query data _.
Arguments resolve_ttl {Env} this options.
Arguments delete {Env} this key _.
Arguments get {Env} now this key _.
Arguments set {Env} this key value options _.

(** ** Observing the calls made on the client *)

(** The three calls the class can make. *)
Definition select_call {Env} (this : SqlCache Env) (key : string) : Call :=
  {| text := select_text this; data := DArray [VStr key] |}.

Definition delete_call {Env} (this : SqlCache Env) (key : string) : Call :=
  {| text := delete_text this; data := DArray [VStr key] |}.

Definition insert_call {Env} (this : SqlCache Env) (key value : string) (ttl : Value) : Call :=
  {| text := insert_text this;
     data := DObject {[ "key" := VStr key; "value" := VStr value; "ttl" := ttl ]} |}.

(** A delete query is recognised by its text, as the test suite does with
    [/^DELETE FROM /]. *)
Definition is_delete (c : Call) : bool := String.prefix "DELETE FROM " (text c).

(** The [ttl] property of the object handed to [INSERT ... SET ?]. *)
Definition ttl_param (c : Call) : Value :=
  match data c with
  | DObject o => prop o "ttl"
  | DArray _ => VUndefined
  end.

(** The calls an operation added to the client's record, given the world
    it started from and the world it left. *)
Definition issued {Env} (w w' : World Env) : list Call :=
  drop (length (calls w)) (calls w').

(** [sub] occurs in [s], as [stringMatching] checks in the test suite. *)
Definition contains (s sub : string) : Prop :=
  exists pre suf, s = pre +:+ sub +:+ suf.

(** ** A scripted connection

    The test double: it answers the queries it receives with the replies
    of a script, one each, and then like a fresh [MockConnection] with
    [(undefined, undefined)].  Its clock is part of its state. *)

Record MockEnv : Type := {
  script : list Reply;
  clock : Z
}.

Definition mock_query : Connection MockEnv :=
  fun _ _ e =>
    match script e with
    | [] => ({| error := VUndefined; results := RMissing |}, e)
    | r :: rest => (r, {| script := rest; clock := clock e |})
    end.


(** [defaultConfig] of the test suite, and the instance it constructs. *)
Definition defaultConfig : SqlCacheOptions MockEnv :=
  {| client := Some mock_query;
     databaseName := Some "cache";
     tableName := None;
     deleteExpiredItems := None |}.

Definition mock_cache (deleteExpired : bool) : SqlCache MockEnv :=
  {| this_client := mock_query;
     this_databaseName := "cache";
     this_tableName := "cache";
     this_deleteExpiredItems := deleteExpired;
     this_defaultSetOptions := {[ "ttl" := VNum 300 ]} |}.

(** A configuration naming both the database and the table, as the test
    suite does for the custom names, and the instance it constructs. *)
Definition customConfig : SqlCacheOptions MockEnv :=
  {| client := Some mock_query;
     databaseName := Some "test";
     tableName := Some "test_table";
     deleteExpiredItems := None |}.

Definition custom_cache : SqlCache MockEnv :=
  {| this_client := mock_query;
     this_databaseName := "test";
     this_tableName := "test_table";
     this_deleteExpiredItems := true;
     this_defaultSetOptions := {[ "ttl" := VNum 300 ]} |}.

Definition ok_rows (rows : list Row) : Reply :=
  {| error := VNull; results := RRows rows |}.

Definition ok_packet (affected : Z) : Reply :=
  {| error := VNull; results := ROkPacket affected |}.

Definition failure (e : Value) : Reply :=
  {| error := e; results := RMissing |}.

Definition stale_row : Row :=
  {| key := "key-123"; value := "{}"; expiry_ts := 0 |}.

Definition fresh_row : Row :=
  {| key := "key-123"; value := "{}"; expiry_ts := 9999999999999 |}.

(** A reading of the clock: 2026-11-02T00:00:00Z in milliseconds. *)
Definition mock_now : Z := 1793577600000.

Definition mock_env (replies : list Reply) : MockEnv :=
  {| script := replies; clock := mock_now |}.

(** A world in which no call has been made yet. *)
Definition mock_world (replies : list Reply) : World MockEnv :=
  {| env := mock_env replies; calls := [] |}.

(** * Properties *)

(** ** Rounding to doubles *)

Lemma nearest_even_bounds a m :
  0 < m -> (a / m) * m <= nearest_even a m <= (a / m + 1) * m.
Proof.
  intros Hm. unfold nearest_even. cbn zeta.
  destruct (2 * (a mod m) <? m); [nia|].
  destruct (m <? 2 * (a mod m)); [nia|].
  destruct (Z.even (a / m)); nia.
Qed.

Lemma nearest_even_mono a b m :
  0 < m -> a <= b -> nearest_even a m <= nearest_even b m.
Proof.
  intros Hm Hab.
  assert (Hq : a / m <= b / m) by now apply Z.div_le_mono.
  destruct (Z.eq_dec (a / m) (b / m)) as [Heq | Hne].
  - assert (Hr : a mod m <= b mod m).
    { rewrite !Z.mod_eq by lia. rewrite Heq. lia. }
    unfold nearest_even. cbn zeta. rewrite Heq.
    repeat match goal with
           | |- context [?x <? ?y] => destruct (Z.ltb_spec x y)
           end;
      destruct (Z.even (b / m)); nia.
  - pose proof (nearest_even_bounds a m Hm) as Ha.
    pose proof (nearest_even_bounds b m Hm) as Hb. nia.
Qed.

Lemma ulp_pos a : 0 < ulp a.
Proof. unfold ulp. apply Z.pow_pos_nonneg; lia. Qed.

Lemma nearest_even_nonneg a m : 0 <= a -> 0 < m -> 0 <= nearest_even a m.
Proof.
  intros Ha Hm. pose proof (nearest_even_bounds a m Hm) as [Hlow _].
  assert (0 <= a / m * m)
    by (apply Z.mul_nonneg_nonneg; [apply Z.div_pos|]; lia).
  lia.
Qed.

Lemma nearest_even_one a : nearest_even a 1 = a.
Proof.
  unfold nearest_even. cbn zeta. rewrite Z.mod_1_r, Z.div_1_r.
  change (2 * 0 <? 1) with true. cbn iota. lia.
Qed.

Lemma ulp_safe a : a <= MAX_SAFE_INTEGER -> ulp a = 1.
Proof.
  intros Ha. unfold ulp.
  destruct (Z.le_gt_cases a 0) as [Hle | Hpos].
  - rewrite (Z.log2_nonpos a Hle). reflexivity.
  - assert (Z.log2 a < 53).
    { apply Z.log2_lt_pow2; [lia|]. unfold MAX_SAFE_INTEGER in Ha. lia. }
    replace (Z.max 0 (Z.log2 a - 52)) with 0 by lia. reflexivity.
Qed.

(** Rounding keeps the order, also across binary orders of magnitude:
    the smaller number rounds to at most the power of two that the
    larger one cannot round below. *)
Lemma nearest_even_ulp_mono a b :
  0 <= a -> a <= b -> nearest_even a (ulp a) <= nearest_even b (ulp b).
Proof.
  intros Ha Hab.
  destruct (Z.eq_dec a 0) as [-> | Hane].
  { cbn. apply nearest_even_nonneg; [lia | apply ulp_pos]. }
  assert (Hlog : Z.log2 a <= Z.log2 b) by now apply Z.log2_le_mono.
  set (ka := Z.max 0 (Z.log2 a - 52)).
  set (kb := Z.max 0 (Z.log2 b - 52)).
  assert (Hk : ka <= kb) by lia.
  destruct (Z.eq_dec ka kb) as [Heq | Hne].
  - unfold ulp. fold ka kb. rewrite Heq. apply nearest_even_mono; [|exact Hab].
    apply Z.pow_pos_nonneg; lia.
  - assert (Hkb : kb = Z.log2 b - 52) by lia.
    pose proof (Z.log2_spec a ltac:(lia)) as [_ Haub].
    pose proof (Z.log2_spec b ltac:(lia)) as [Hblb _].
    pose proof (nearest_even_bounds a (ulp a) (ulp_pos a)) as [_ Hna].
    pose proof (nearest_even_bounds b (ulp b) (ulp_pos b)) as [Hnb _].
    assert (Hma : 0 < 2 ^ ka) by (apply Z.pow_pos_nonneg; lia).
    assert (Hmb : 0 < 2 ^ kb) by (apply Z.pow_pos_nonneg; lia).
    assert (Ha53 : a < 2 ^ 53 * 2 ^ ka).
    { rewrite <- Z.pow_add_r by lia.
      eapply Z.lt_le_trans; [exact Haub|].
      apply Z.pow_le_mono_r; lia. }
    assert (Hb52 : 2 ^ 52 * 2 ^ kb <= b).
    { rewrite <- Z.pow_add_r by lia.
      replace (52 + kb) with (Z.log2 b) by lia. exact Hblb. }
    assert (Hstep : 2 ^ 53 * 2 ^ ka <= 2 ^ 52 * 2 ^ kb).
    { rewrite <- !Z.pow_add_r by lia. apply Z.pow_le_mono_r; lia. }
    unfold ulp in *. fold ka kb in Hna, Hnb |- *.
    assert (Hqa : a / 2 ^ ka + 1 <= 2 ^ 53).
    { assert (a / 2 ^ ka < 2 ^ 53) by (apply Z.div_lt_upper_bound; lia). lia. }
    assert (Hqb : 2 ^ 52 <= b / 2 ^ kb).
    { apply Z.div_le_lower_bound; lia. }
    nia.
Qed.

Lemma to_double_mono x y : x <= y -> to_double x <= to_double y.
Proof.
  intros Hxy. unfold to_double.
  destruct (Z.ltb_spec x 0), (Z.ltb_spec y 0).
  - assert (nearest_even (- y) (ulp (- y)) <= nearest_even (- x) (ulp (- x)))
      by (apply nearest_even_ulp_mono; lia).
    lia.
  - assert (0 <= nearest_even (- x) (ulp (- x)))
      by (apply nearest_even_nonneg; [lia | apply ulp_pos]).
    assert (0 <= nearest_even y (ulp y))
      by (apply nearest_even_nonneg; [lia | apply ulp_pos]).
    lia.
  - lia.
  - apply nearest_even_ulp_mono; lia.
Qed.

(** Safe integers are doubles. *)
Lemma to_double_safe x : Z.abs x <= MAX_SAFE_INTEGER -> to_double x = x.
Proof.
  intros Hx. unfold to_double.
  destruct (Z.ltb_spec x 0).
  - rewrite ulp_safe by lia. rewrite nearest_even_one. lia.
  - rewrite ulp_safe by lia. apply nearest_even_one.
Qed.

Lemma to_double_beyond_safe x :
  MAX_SAFE_INTEGER < x -> MAX_SAFE_INTEGER < to_double x.
Proof.
  intros Hx.
  assert (to_double (2 ^ 53) <= to_double x)
    by (apply to_double_mono; unfold MAX_SAFE_INTEGER in Hx; lia).
  assert (to_double (2 ^ 53) = 2 ^ 53) by reflexivity.
  unfold MAX_SAFE_INTEGER. lia.
Qed.

(** The product of the source is rounded: beyond [2^53] it can fall
    below the exact product. *)
Example Number_mul_rounds :
  Number_mul 9007199254741014 1000 = 9007199254741013504.
Proof. reflexivity. Qed.

(** ** The expiry test *)

(** A row whose exact expiry time has been reached is expired for the
    test of the source too, under every clock. *)
Lemma isExpired_of_le n (row : Row) :
  expiry_ts row * 1000 <= n -> isExpired (to_double n) row = true.
Proof.
  intros Hle. unfold isExpired, Number_mul.
  apply Z.geb_le. now apply to_double_mono.
Qed.

(** A row the test of the source lets pass is not expired in exact
    arithmetic either. *)
Lemma isExpired_false_lt n (row : Row) :
  isExpired (to_double n) row = false -> n < expiry_ts row * 1000.
Proof.
  intros Hfresh.
  destruct (Z.le_gt_cases (expiry_ts row * 1000) n) as [Hle | Hlt];
    [|exact Hlt].
  rewrite (isExpired_of_le _ _ Hle) in Hfresh. discriminate.
Qed.

(** When the clock reads a safe integer, the test of the source is the
    exact comparison. *)
Lemma isExpired_safe n (row : Row) :
  Z.abs n <= MAX_SAFE_INTEGER ->
  isExpired (to_double n) row = (n >=? expiry_ts row * 1000).
Proof.
  intros Hn.
  destruct (Z.le_gt_cases (expiry_ts row * 1000) n) as [Hle | Hlt].
  - rewrite (isExpired_of_le _ _ Hle). symmetry. now apply Z.geb_le.
  - replace (n >=? expiry_ts row * 1000) with false
      by (symmetry; rewrite Z.geb_leb; apply Z.leb_gt; exact Hlt).
    unfold isExpired, Number_mul. rewrite (to_double_safe n Hn).
    rewrite Z.geb_leb. apply Z.leb_gt.
    destruct (Z.le_gt_cases (expiry_ts row * 1000) MAX_SAFE_INTEGER)
      as [Hsafe | Hbig].
    + rewrite to_double_safe by lia. exact Hlt.
    + pose proof (to_double_beyond_safe _ Hbig). lia.
Qed.

Section Properties.

Context {Env : Type}.
Variable now : Env -> Z.

Implicit Types (this : SqlCache Env) (w : World Env) (e : Env).
Implicit Types (r : Reply) (key : string) (row : Row) (rows : list Row).

(** ** How the building blocks run *)

Lemma await_fulfilled {A B} (c : Async Env A) (k : A -> Async Env B) w a w' :
  c w = (Fulfilled a, w') -> await c k w = k a w'.
Proof. intros Hc. unfold await. now rewrite Hc. Qed.

Lemma await_rejected {A B} (c : Async Env A) (k : A -> Async Env B) w x w' :
  c w = (Rejected x, w') -> await c k w = (Rejected x, w').
Proof. intros Hc. unfold await. now rewrite Hc. Qed.

(** One call is recorded, and the promise settles by the truthiness of
    the reported error. *)
Lemma promisifyQuery_run this query d w r e :
  this_client this query d (env w) = (r, e) ->
  promisifyQuery this query d w =
    (if truthy (error r) then Rejected (error r) else Fulfilled (results r),
     {| env := e; calls := calls w ++ [{| text := query; data := d |}] |}).
Proof.
  intros Hq. unfold promisifyQuery. rewrite Hq.
  now destruct (truthy (error r)).
Qed.

Lemma delete_run this key w r e :
  this_client this (delete_text this) (DArray [VStr key]) (env w) = (r, e) ->
  delete this key w =
    (if truthy (error r) then Rejected (error r) else Fulfilled true,
     {| env := e; calls := calls w ++ [delete_call this key] |}).
Proof.
  intros Hq. unfold delete.
  destruct (truthy (error r)) eqn:Herr.
  - apply await_rejected. rewrite (promisifyQuery_run _ _ _ _ _ _ Hq), Herr.
    reflexivity.
  - erewrite await_fulfilled.
    2:{ rewrite (promisifyQuery_run _ _ _ _ _ _ Hq), Herr. reflexivity. }
    reflexivity.
Qed.

(** The read of [get] succeeded: what remains is the body after the first
    [await], run in the world the read left behind. *)
Lemma get_after_read this key w r e :
  this_client this (select_text this) (DArray [VStr key]) (env w) = (r, e) ->
  truthy (error r) = false ->
  get now this key w =
    let w1 := {| env := e; calls := calls w ++ [select_call this key] |} in
    match results r with
    | RRows (row :: _) =>
        if this_deleteExpiredItems this && isExpired (to_double (now e)) row
        then await (delete this key) (fun _ => ret None) w1
        else (Fulfilled (Some (value row)), w1)
    | _ => (Fulfilled None, w1)
    end.
Proof.
  intros Hq Herr. unfold get.
  erewrite await_fulfilled.
  2:{ rewrite (promisifyQuery_run _ _ _ _ _ _ Hq), Herr. reflexivity. }
  cbn zeta. fold (select_call this key).
  destruct (results r) as [|[|row rows]|]; try reflexivity.
  destruct (this_deleteExpiredItems this); cbn [andb].
  - unfold await at 1 2, Date_now, ret at 1. cbn [env].
    now destruct (isExpired (to_double (now e)) row).
  - reflexivity.
Qed.

Lemma select_call_not_delete this key : is_delete (select_call this key) = false.
Proof. reflexivity. Qed.

Lemma prefix_append (p s : string) : String.prefix p (p +:+ s) = true.
Proof.
  induction p as [|a p IH]; simpl.
  - now destruct s.
  - destruct (Ascii.ascii_dec a a) as [_|Hne]; [exact IH | now destruct Hne].
Qed.

Lemma delete_call_is_delete this key : is_delete (delete_call this key) = true.
Proof. apply prefix_append. Qed.

Lemma insert_call_not_delete this key v t : is_delete (insert_call this key v t) = false.
Proof. reflexivity. Qed.

(** ** delete *)

(** C8: for every key, [delete] issues exactly one query, a delete query
    parameterized with that key, and resolves to [true] whenever that
    query completes without error, whatever results it reports (so
    whether or not a matching row existed). *)
Theorem delete_resolves_true this key w r e :
  this_client this (delete_text this) (DArray [VStr key]) (env w) = (r, e) ->
  truthy (error r) = false ->
  delete this key w =
    (Fulfilled true, {| env := e; calls := calls w ++ [delete_call this key] |})
  /\ is_delete (delete_call this key) = true
  /\ data (delete_call this key) = DArray [VStr key].
Proof.
  intros Hq Herr. split; [|split].
  - rewrite (delete_run _ _ _ _ _ Hq), Herr. reflexivity.
  - apply delete_call_is_delete.
  - reflexivity.
Qed.

(** ** get *)

(** C6: for every key, when the read query succeeds but reports no
    matching row (a missing or an empty result set), [get] is fulfilled
    with [undefined]; it neither throws nor rejects, and the read is the
    only query made. *)
Theorem get_no_row_is_absent this key w r e :
  this_client this (select_text this) (DArray [VStr key]) (env w) = (r, e) ->
  truthy (error r) = false ->
  results r = RMissing \/ results r = RRows [] ->
  get now this key w =
    (Fulfilled None, {| env := e; calls := calls w ++ [select_call this key] |}).
Proof.
  intros Hq Herr Hnone.
  rewrite (get_after_read _ _ _ _ _ Hq Herr). cbn zeta.
  now destruct Hnone as [-> | ->].
Qed.

(** The world after [get] found a row it treats as expired: the
    follow-up delete has been issued, whatever it answers. *)
Lemma get_expired_run this key w r1 e1 row rows r2 e2 :
  this_client this (select_text this) (DArray [VStr key]) (env w) = (r1, e1) ->
  truthy (error r1) = false ->
  results r1 = RRows (row :: rows) ->
  this_deleteExpiredItems this = true ->
  expiry_ts row * 1000 <= now e1 ->
  this_client this (delete_text this) (DArray [VStr key]) e1 = (r2, e2) ->
  get now this key w =
    (if truthy (error r2) then Rejected (error r2) else Fulfilled None,
     {| env := e2;
        calls := calls w ++ [select_call this key; delete_call this key] |}).
Proof.
  intros Hq1 Herr1 Hrows Hon Hexp Hq2.
  rewrite (get_after_read _ _ _ _ _ Hq1 Herr1). cbn zeta.
  rewrite Hrows, Hon. cbn [andb].
  rewrite (isExpired_of_le _ _ Hexp).
  unfold await.
  rewrite (delete_run this key {| env := e1; calls := _ |} r2 e2 Hq2).
  cbn [calls]. rewrite <- app_assoc. cbn [app].
  now destruct (truthy (error r2)).
Qed.

(** C1 (amended): for every key, when the read query returns a row whose
    expiry has passed ([Date.now() >= expiry_ts * 1000]) and
    [deleteExpiredItems] is enabled, [get] performs exactly one follow-up
    delete query parameterized with that key and, when that delete query
    completes without error, returns [undefined]. *)
Theorem get_expired_deletes_then_absent this key w r1 e1 row rows r2 e2 :
  this_client this (select_text this) (DArray [VStr key]) (env w) = (r1, e1) ->
  truthy (error r1) = false ->
  results r1 = RRows (row :: rows) ->
  this_deleteExpiredItems this = true ->
  expiry_ts row * 1000 <= now e1 ->
  this_client this (delete_text this) (DArray [VStr key]) e1 = (r2, e2) ->
  calls (snd (get now this key w)) =
    calls w ++ [select_call this key; delete_call this key]
  /\ List.filter is_delete [select_call this key; delete_call this key] =
       [delete_call this key]
  /\ data (delete_call this key) = DArray [VStr key]
  /\ (truthy (error r2) = false ->
      get now this key w =
        (Fulfilled None,
         {| env := e2;
            calls := calls w ++ [select_call this key; delete_call this key] |})).
Proof.
  intros Hq1 Herr1 Hrows Hon Hexp Hq2.
  rewrite (get_expired_run _ _ _ _ _ _ _ _ _ Hq1 Herr1 Hrows Hon Hexp Hq2).
  repeat split.
  - cbn [List.filter].
    now rewrite select_call_not_delete, delete_call_is_delete.
  - now intros ->.
Qed.

(** C9: for every key, if the read query returns an expired row,
    [deleteExpiredItems] is enabled and the follow-up delete query reports
    an error, then [get] rejects with that error: it is fulfilled neither
    with [undefined] nor with the stale value. *)
Theorem get_rejects_when_followup_delete_fails this key w r1 e1 row rows r2 e2 :
  this_client this (select_text this) (DArray [VStr key]) (env w) = (r1, e1) ->
  truthy (error r1) = false ->
  results r1 = RRows (row :: rows) ->
  this_deleteExpiredItems this = true ->
  expiry_ts row * 1000 <= now e1 ->
  this_client this (delete_text this) (DArray [VStr key]) e1 = (r2, e2) ->
  truthy (error r2) = true ->
  get now this key w =
    (Rejected (error r2),
     {| env := e2;
        calls := calls w ++ [select_call this key; delete_call this key] |})
  /\ forall v, fst (get now this key w) <> Fulfilled v.
Proof.
  intros Hq1 Herr1 Hrows Hon Hexp Hq2 Herr2.
  rewrite (get_expired_run _ _ _ _ _ _ _ _ _ Hq1 Herr1 Hrows Hon Hexp Hq2).
  rewrite Herr2. split; [reflexivity | discriminate].
Qed.

(** C2: for every key, when the read query returns a row whose expiry has
    passed and [deleteExpiredItems] is disabled, [get] returns the stale
    stored value, and the read is the only query made: no delete query is
    issued. *)
Theorem get_expired_kept_when_cleanup_off this key w r e row rows :
  this_client this (select_text this) (DArray [VStr key]) (env w) = (r, e) ->
  truthy (error r) = false ->
  results r = RRows (row :: rows) ->
  this_deleteExpiredItems this = false ->
  expiry_ts row * 1000 <= now e ->
  get now this key w =
    (Fulfilled (Some (value row)),
     {| env := e; calls := calls w ++ [select_call this key] |})
  /\ List.filter is_delete [select_call this key] = [].
Proof.
  intros Hq Herr Hrows Hoff _.
  rewrite (get_after_read _ _ _ _ _ Hq Herr). cbn zeta.
  rewrite Hrows, Hoff. split; reflexivity.
Qed.

(** C7: the expiry test of [get] is [Date.now() >= expiry_ts * 1000], as
    the source computes it on Numbers.  Whenever the clock reads a safe
    integer, as every time value does, it is the exact comparison; and a
    row whose exact expiry time has been reached is expired under every
    clock, the boundary [Date.now() = expiry_ts * 1000] included.  With
    [deleteExpiredItems] enabled the follow-up delete is issued exactly
    when the test holds; and for every row that is not expired by this
    test, whatever the [deleteExpiredItems] setting, [get] returns the
    stored value unchanged. *)
Theorem get_expiry_test this key w r e row rows :
  this_client this (select_text this) (DArray [VStr key]) (env w) = (r, e) ->
  truthy (error r) = false ->
  results r = RRows (row :: rows) ->
  let expired := isExpired (to_double (now e)) row in
  (Z.abs (now e) <= MAX_SAFE_INTEGER ->
   expired = (now e >=? expiry_ts row * 1000))
  /\ (expiry_ts row * 1000 <= now e -> expired = true)
  /\ calls (snd (get now this key w)) =
       calls w ++ select_call this key ::
         (if this_deleteExpiredItems this && expired
          then [delete_call this key] else [])
  /\ (this_deleteExpiredItems this = true ->
      now e = expiry_ts row * 1000 ->
      calls (snd (get now this key w)) =
        calls w ++ [select_call this key; delete_call this key])
  /\ (expired = false ->
      get now this key w =
        (Fulfilled (Some (value row)),
         {| env := e; calls := calls w ++ [select_call this key] |}))
  /\ (Z.abs (now e) <= MAX_SAFE_INTEGER ->
      now e < expiry_ts row * 1000 ->
      get now this key w =
        (Fulfilled (Some (value row)),
         {| env := e; calls := calls w ++ [select_call this key] |})).
Proof.
  intros Hq Herr Hrows expired.
  assert (Hcalls : calls (snd (get now this key w)) =
    calls w ++ select_call this key ::
      (if this_deleteExpiredItems this && expired
       then [delete_call this key] else [])).
  { rewrite (get_after_read _ _ _ _ _ Hq Herr). cbn zeta. rewrite Hrows.
    fold expired.
    destruct (this_deleteExpiredItems this && expired); [|reflexivity].
    destruct (this_client this (delete_text this) (DArray [VStr key]) e)
      as [r2 e2] eqn:Hq2.
    unfold await.
    rewrite (delete_run this key {| env := e; calls := _ |} r2 e2 Hq2).
    cbn [calls]. rewrite <- app_assoc. cbn [app].
    now destruct (truthy (error r2)). }
  assert (Hfresh : expired = false ->
    get now this key w =
      (Fulfilled (Some (value row)),
       {| env := e; calls := calls w ++ [select_call this key] |})).
  { intros Hno.
    rewrite (get_after_read _ _ _ _ _ Hq Herr). cbn zeta. rewrite Hrows.
    fold expired. rewrite Hno. now rewrite andb_false_r. }
  split; [apply isExpired_safe|].
  split; [apply isExpired_of_le|].
  split; [exact Hcalls|].
  split; [|split; [exact Hfresh|]].
  - intros Hon Hedge. rewrite Hcalls, Hon. cbn [andb].
    unfold expired. rewrite isExpired_of_le by lia. reflexivity.
  - intros Hsafe Hlt. apply Hfresh. unfold expired.
    rewrite (isExpired_safe _ _ Hsafe).
    rewrite Z.geb_leb. now apply Z.leb_gt.
Qed.

(** ** set *)

Lemma set_run this key v options w r e :
  let c := insert_call this key v (resolve_ttl this (default ∅ options)) in
  this_client this (text c) (data c) (env w) = (r, e) ->
  set this key v options w =
    (if truthy (error r) then Rejected (error r) else Fulfilled tt,
     {| env := e; calls := calls w ++ [c] |}).
Proof.
  intros c Hq. subst c. cbn [insert_call text data] in Hq.
  unfold set. cbn zeta.
  destruct (truthy (error r)) eqn:Herr.
  - apply await_rejected.
    rewrite (promisifyQuery_run _ _ _ _ _ _ Hq), Herr. reflexivity.
  - erewrite await_fulfilled.
    2:{ rewrite (promisifyQuery_run _ _ _ _ _ _ Hq), Herr. reflexivity. }
    reflexivity.
Qed.

Lemma set_calls this key v options w :
  calls (snd (set this key v options w)) =
    calls w ++ [insert_call this key v (resolve_ttl this (default ∅ options))].
Proof.
  set (c := insert_call this key v (resolve_ttl this (default ∅ options))).
  destruct (this_client this (text c) (data c) (env w)) as [r e] eqn:Hq.
  rewrite (set_run _ _ _ _ _ _ _ Hq).
  now destruct (truthy (error r)).
Qed.

Lemma ttl_param_insert_call this key v t :
  ttl_param (insert_call this key v t) = t.
Proof.
  unfold ttl_param, insert_call, prop. cbn [data].
  rewrite lookup_insert_ne by discriminate.
  rewrite lookup_insert_ne by discriminate.
  now rewrite lookup_singleton_eq.
Qed.

(** An own [ttl] property of the options wins, whatever it holds. *)
Lemma resolve_ttl_own this (o : gmap string Value) x :
  o !! "ttl" = Some x -> resolve_ttl this o = x.
Proof.
  intros Hx. unfold resolve_ttl, spread, prop.
  now rewrite (lookup_union_Some_l _ _ _ _ Hx).
Qed.

(** Without one, the [ttl] of [defaultSetOptions] is taken. *)
Lemma resolve_ttl_default this (o : gmap string Value) :
  o !! "ttl" = None ->
  resolve_ttl this o = prop (this_defaultSetOptions this) "ttl".
Proof.
  intros Hx. unfold resolve_ttl, spread, prop.
  now rewrite (lookup_union_r _ _ _ Hx).
Qed.

(** Every instance that [new SqlCache] returns has [ttl: 300] as its
    default. *)
Lemma constructor_defaultSetOptions cfg this :
  constructor cfg = Normal this ->
  this_defaultSetOptions this = {[ "ttl" := VNum 300 ]}.
Proof.
  unfold constructor. intros Hnew.
  destruct cfg as [o|]; [|discriminate].
  destruct (client o); [|discriminate].
  destruct (databaseName o) as [[|a db]|]; try discriminate;
    now inversion Hnew.
Qed.

Lemma constructor_default_ttl cfg this :
  constructor cfg = Normal this ->
  prop (this_defaultSetOptions this) "ttl" = VNum 300.
Proof.
  intros Hnew. rewrite (constructor_defaultSetOptions _ _ Hnew).
  unfold prop. now rewrite lookup_singleton_eq.
Qed.

(** C3: for every [set] call, the [ttl] parameter of the issued insert is
    [options.ttl] when the options carry a [ttl], and the default TTL of
    the instance otherwise, which is 300 for every constructed instance;
    an explicit [ttl] of 900 overrides the default. *)
Theorem set_ttl_parameter this key v options w :
  let c := insert_call this key v (resolve_ttl this (default ∅ options)) in
  calls (snd (set this key v options w)) = calls w ++ [c]
  /\ (forall o x, options = Some o -> o !! "ttl" = Some x -> ttl_param c = x)
  /\ (options = Some {[ "ttl" := VNum 900 ]} -> ttl_param c = VNum 900)
  /\ (options = None \/ (exists o, options = Some o /\ o !! "ttl" = None) ->
      ttl_param c = prop (this_defaultSetOptions this) "ttl")
  /\ (forall cfg, constructor cfg = Normal this ->
      prop (this_defaultSetOptions this) "ttl" = VNum 300).
Proof.
  intros c. subst c. rewrite ttl_param_insert_call.
  split; [apply set_calls|].
  split; [|split; [|split]].
  - intros o x -> Hx. now apply resolve_ttl_own.
  - intros ->. apply resolve_ttl_own. simpl.
    apply lookup_singleton_eq.
  - intros [-> | (o & -> & Hx)]; simpl.
    + apply resolve_ttl_default. apply lookup_empty.
    + now apply resolve_ttl_default.
  - intros cfg. apply constructor_default_ttl.
Qed.

(** C10: on a constructed instance, [set] with options that explicitly
    contain [ttl: undefined] issues an insert whose [ttl] parameter is
    [undefined], not the default 300: a [ttl] property that is present
    always overrides the default, which is applied only when the property
    is absent from the options. *)
Theorem set_explicit_undefined_ttl cfg this key v (o : gmap string Value) w :
  constructor cfg = Normal this ->
  let c := insert_call this key v (resolve_ttl this o) in
  calls (snd (set this key v (Some o) w)) = calls w ++ [c]
  /\ (o !! "ttl" = Some VUndefined ->
      ttl_param c = VUndefined /\ ttl_param c <> VNum 300)
  /\ (forall x, o !! "ttl" = Some x -> ttl_param c = x)
  /\ (o !! "ttl" = None -> ttl_param c = VNum 300).
Proof.
  intros Hnew c. subst c. rewrite ttl_param_insert_call.
  split; [apply (set_calls this key v (Some o) w)|].
  split; [|split].
  - intros Hx. rewrite (resolve_ttl_own _ _ _ Hx). now split.
  - intros x Hx. now apply resolve_ttl_own.
  - intros Hx. rewrite (resolve_ttl_default _ _ Hx).
    now apply (constructor_default_ttl cfg).
Qed.

(** ** Failing queries *)

(** C5: for each of [get], [set] and [delete], whenever the connection
    reports an error for the issued query (for [get]: the read, or the
    follow-up delete of an expired row), the operation rejects with that
    same error value; no further call is made after the failed one, so
    nothing is retried and nothing is swallowed. *)
Theorem query_error_rejects this key v options w r e :
  truthy (error r) = true ->
  (this_client this (select_text this) (DArray [VStr key]) (env w) = (r, e) ->
   get now this key w =
     (Rejected (error r),
      {| env := e; calls := calls w ++ [select_call this key] |}))
  /\ (let c := insert_call this key v (resolve_ttl this (default ∅ options)) in
      this_client this (text c) (data c) (env w) = (r, e) ->
      set this key v options w =
        (Rejected (error r), {| env := e; calls := calls w ++ [c] |}))
  /\ (this_client this (delete_text this) (DArray [VStr key]) (env w) = (r, e) ->
      delete this key w =
        (Rejected (error r),
         {| env := e; calls := calls w ++ [delete_call this key] |}))
  /\ (forall r1 e1 row rows,
      this_client this (select_text this) (DArray [VStr key]) (env w) = (r1, e1) ->
      truthy (error r1) = false ->
      results r1 = RRows (row :: rows) ->
      this_deleteExpiredItems this = true ->
      expiry_ts row * 1000 <= now e1 ->
      this_client this (delete_text this) (DArray [VStr key]) e1 = (r, e) ->
      get now this key w =
        (Rejected (error r),
         {| env := e;
            calls := calls w ++ [select_call this key; delete_call this key] |})).
Proof.
  intros Herr. split; [|split; [|split]].
  - intros Hq. unfold get. apply await_rejected.
    rewrite (promisifyQuery_run _ _ _ _ _ _ Hq), Herr. reflexivity.
  - intros c Hq. rewrite (set_run _ _ _ _ _ _ _ Hq), Herr. reflexivity.
  - intros Hq. rewrite (delete_run _ _ _ _ _ Hq), Herr. reflexivity.
  - intros r1 e1 row rows Hq1 Herr1 Hrows Hon Hexp Hq2.
    rewrite (get_expired_run _ _ _ _ _ _ _ _ _ Hq1 Herr1 Hrows Hon Hexp Hq2).
    now rewrite Herr.
Qed.

(** ** Construction *)

(** C4: [new SqlCache(options)] throws, synchronously, exactly when the
    configuration object is absent, the client is absent, or
    [databaseName] is absent or empty; otherwise it returns an instance
    holding the given client and database name, with [tableName =
    "cache"] and [deleteExpiredItems = true] when those are not
    supplied, and the supplied values when they are. *)
Theorem constructor_throws_iff (options : option (SqlCacheOptions Env)) :
  ((exists x, constructor options = Throw x) <->
   match options with
   | None => True
   | Some o =>
       client o = None \/ databaseName o = None \/ databaseName o = Some ""
   end)
  /\ (forall o c db,
      options = Some o -> client o = Some c -> databaseName o = Some db ->
      db <> "" ->
      exists this,
        constructor options = Normal this
        /\ this_client this = c
        /\ this_databaseName this = db
        /\ (tableName o = None -> this_tableName this = "cache")
        /\ (forall t, tableName o = Some t -> t <> "" -> this_tableName this = t)
        /\ (deleteExpiredItems o = None -> this_deleteExpiredItems this = true)
        /\ (forall b, deleteExpiredItems o = Some b ->
            this_deleteExpiredItems this = b)).
Proof.
  split.
  - unfold constructor. destruct options as [o|].
    + destruct (client o) as [c|].
      * destruct (databaseName o) as [[|a db]|].
        -- split; [intros _; now right; right | intros _; eexists; reflexivity].
        -- split; [intros [x Hx]; discriminate|].
           intros [Hc | [Hd | Hd]]; discriminate.
        -- split; [intros _; now right; left | intros _; eexists; reflexivity].
      * split; [intros _; now left | intros _; eexists; reflexivity].
    + split; [trivial | intros _; eexists; reflexivity].
  - intros o c db -> Hc Hdb Hne. unfold constructor. rewrite Hc, Hdb.
    destruct db as [|a db]; [contradiction|].
    eexists. split; [reflexivity|]. cbn.
    repeat split.
    + now intros ->.
    + intros t -> Ht. destruct t; [contradiction | reflexivity].
    + now intros ->.
    + now intros b ->.
Qed.

End Properties.

(** * The properties at work on the scripted connection *)

Lemma delete_resolves_true_witness :
  delete (mock_cache true) "key-123" (mock_world [ok_packet 0]) =
    (Fulfilled true,
     {| env := mock_env []; calls := [delete_call (mock_cache true) "key-123"] |})
  /\ is_delete (delete_call (mock_cache true) "key-123") = true
  /\ data (delete_call (mock_cache true) "key-123") = DArray [VStr "key-123"].
Proof.
  apply (delete_resolves_true (mock_cache true) "key-123"
           (mock_world [ok_packet 0]) (ok_packet 0) (mock_env []));
    reflexivity.
Defined.

Lemma get_no_row_is_absent_witness :
  get clock (mock_cache true) "key-123" (mock_world []) =
    (Fulfilled None,
     {| env := mock_env []; calls := [select_call (mock_cache true) "key-123"] |}).
Proof.
  apply (get_no_row_is_absent clock (mock_cache true) "key-123" (mock_world [])
           {| error := VUndefined; results := RMissing |} (mock_env []));
    [reflexivity | reflexivity | left; reflexivity].
Defined.

Lemma get_expired_deletes_then_absent_witness :
  get clock (mock_cache true) "key-123"
      (mock_world [ok_rows [stale_row]; ok_packet 1]) =
    (Fulfilled None,
     {| env := mock_env [];
        calls := [select_call (mock_cache true) "key-123";
                  delete_call (mock_cache true) "key-123"] |}).
Proof.
  destruct (get_expired_deletes_then_absent clock (mock_cache true) "key-123"
              (mock_world [ok_rows [stale_row]; ok_packet 1])
              (ok_rows [stale_row]) (mock_env [ok_packet 1]) stale_row []
              (ok_packet 1) (mock_env []))
    as (_ & _ & _ & Habsent);
    [reflexivity | reflexivity | reflexivity | reflexivity
    | vm_compute; discriminate | reflexivity | ].
  apply Habsent. reflexivity.
Defined.

(** C1 as stated fails: the read returns an expired row and
    [deleteExpiredItems] is on, but the connection refuses the follow-up
    delete, and [get] rejects instead of returning [undefined]. *)
Lemma get_expired_not_always_absent :
  ~ (forall (this : SqlCache MockEnv) key w r1 e1 row rows,
       this_client this (select_text this) (DArray [VStr key]) (env w) = (r1, e1) ->
       truthy (error r1) = false ->
       results r1 = RRows (row :: rows) ->
       this_deleteExpiredItems this = true ->
       expiry_ts row * 1000 <= clock e1 ->
       fst (get clock this key w) = Fulfilled None).
Proof.
  intros Hclaim.
  pose (denied := failure (VError "ER_TABLEACCESS_DENIED_ERROR")).
  assert (Habsent : fst (get clock (mock_cache true) "key-123"
                          (mock_world [ok_rows [stale_row]; denied]))
                    = Fulfilled None).
  { apply (Hclaim (mock_cache true) "key-123"
             (mock_world [ok_rows [stale_row]; denied])
             (ok_rows [stale_row]) (mock_env [denied]) stale_row []);
      try reflexivity.
    vm_compute. discriminate. }
  vm_compute in Habsent. discriminate Habsent.
Qed.

Lemma get_rejects_when_followup_delete_fails_witness :
  get clock (mock_cache true) "key-123"
      (mock_world [ok_rows [stale_row]; failure (VBool true)]) =
    (Rejected (VBool true),
     {| env := mock_env [];
        calls := [select_call (mock_cache true) "key-123";
                  delete_call (mock_cache true) "key-123"] |})
  /\ forall v,
       fst (get clock (mock_cache true) "key-123"
              (mock_world [ok_rows [stale_row]; failure (VBool true)]))
       <> Fulfilled v.
Proof.
  apply (get_rejects_when_followup_delete_fails clock (mock_cache true) "key-123"
           (mock_world [ok_rows [stale_row]; failure (VBool true)])
           (ok_rows [stale_row]) (mock_env [failure (VBool true)]) stale_row []
           (failure (VBool true)) (mock_env []));
    try reflexivity.
  vm_compute. discriminate.
Defined.

Lemma get_expired_kept_when_cleanup_off_witness :
  get clock (mock_cache false) "key-123" (mock_world [ok_rows [stale_row]]) =
    (Fulfilled (Some "{}"),
     {| env := mock_env []; calls := [select_call (mock_cache false) "key-123"] |})
  /\ List.filter is_delete [select_call (mock_cache false) "key-123"] = [].
Proof.
  apply (get_expired_kept_when_cleanup_off clock (mock_cache false) "key-123"
           (mock_world [ok_rows [stale_row]]) (ok_rows [stale_row]) (mock_env [])
           stale_row []);
    try reflexivity.
  vm_compute. discriminate.
Defined.

Lemma get_expiry_test_witness :
  get clock (mock_cache true) "key-123" (mock_world [ok_rows [fresh_row]]) =
    (Fulfilled (Some "{}"),
     {| env := mock_env []; calls := [select_call (mock_cache true) "key-123"] |}).
Proof.
  destruct (get_expiry_test clock (mock_cache true) "key-123"
              (mock_world [ok_rows [fresh_row]]) (ok_rows [fresh_row])
              (mock_env []) fresh_row [])
    as (_ & _ & _ & _ & _ & Hfresh); [reflexivity | reflexivity | reflexivity |].
  apply Hfresh; [vm_compute; discriminate | reflexivity].
Defined.

(** Beyond the safe integers the product is rounded as in the source: a
    row whose exact expiry time lies 496 ms after the clock reading is
    expired for [get], and deleted. *)
Example get_expiry_test_rounds :
  get clock (mock_cache true) "key-123"
      {| env := {| script := [ok_rows [{| key := "key-123"; value := "{}";
                                          expiry_ts := 9007199254741014 |}];
                              ok_packet 1];
                   clock := 9007199254741013504 |};
         calls := [] |} =
    (Fulfilled None,
     {| env := {| script := []; clock := 9007199254741013504 |};
        calls := [select_call (mock_cache true) "key-123";
                  delete_call (mock_cache true) "key-123"] |}).
Proof. reflexivity. Qed.

Lemma set_ttl_parameter_witness :
  ttl_param (insert_call (mock_cache true) "key-123" "{}"
               (resolve_ttl (mock_cache true) {[ "ttl" := VNum 900 ]}))
    = VNum 900
  /\ ttl_param (insert_call (mock_cache true) "key-123" "{}"
                  (resolve_ttl (mock_cache true) ∅))
    = VNum 300.
Proof.
  split.
  - destruct (set_ttl_parameter (mock_cache true) "key-123" "{}"
                (Some {[ "ttl" := VNum 900 ]}) (mock_world []))
      as (_ & _ & H900 & _).
    apply H900. reflexivity.
  - destruct (set_ttl_parameter (mock_cache true) "key-123" "{}"
                None (mock_world []))
      as (_ & _ & _ & Hdefault & H300).
    rewrite <- (H300 (Some defaultConfig) eq_refl).
    apply Hdefault. left. reflexivity.
Defined.

Lemma set_explicit_undefined_ttl_witness :
  calls (snd (set (mock_cache true) "key-123" "{}"
                (Some {[ "ttl" := VUndefined ]}) (mock_world []))) =
    [insert_call (mock_cache true) "key-123" "{}" VUndefined].
Proof.
  destruct (set_explicit_undefined_ttl (Some defaultConfig) (mock_cache true)
              "key-123" "{}" {[ "ttl" := VUndefined ]} (mock_world []) eq_refl)
    as (Hcalls & _).
  exact Hcalls.
Defined.

Lemma query_error_rejects_witness :
  get clock (mock_cache true) "key-123" (mock_world [failure (VBool true)]) =
    (Rejected (VBool true),
     {| env := mock_env []; calls := [select_call (mock_cache true) "key-123"] |})
  /\ set (mock_cache true) "key-123" "{}" None (mock_world [failure (VBool true)]) =
       (Rejected (VBool true),
        {| env := mock_env [];
           calls := [insert_call (mock_cache true) "key-123" "{}" (VNum 300)] |})
  /\ delete (mock_cache true) "key-123" (mock_world [failure (VBool true)]) =
       (Rejected (VBool true),
        {| env := mock_env []; calls := [delete_call (mock_cache true) "key-123"] |}).
Proof.
  destruct (query_error_rejects clock (mock_cache true) "key-123" "{}" None
              (mock_world [failure (VBool true)]) (failure (VBool true))
              (mock_env []) eq_refl)
    as (Hget & Hset & Hdelete & _).
  split; [apply Hget; reflexivity | split].
  - apply Hset. reflexivity.
  - apply Hdelete. reflexivity.
Defined.

Lemma constructor_throws_iff_witness :
  (exists x, constructor (@None (SqlCacheOptions MockEnv)) = Throw x)
  /\ exists this,
       constructor (Some defaultConfig) = Normal this
       /\ this_tableName this = "cache"
       /\ this_deleteExpiredItems this = true.
Proof.
  split.
  - apply (constructor_throws_iff (@None (SqlCacheOptions MockEnv))). exact I.
  - destruct (constructor_throws_iff (Some defaultConfig)) as [_ Hok].
    destruct (Hok defaultConfig mock_query "cache" eq_refl eq_refl eq_refl)
      as (this & Hnew & _ & _ & Htable & _ & Hdel & _); [discriminate|].
    exists this. split; [exact Hnew | split].
    + apply Htable. reflexivity.
    + apply Hdel. reflexivity.
Defined.

(** * Further properties of the operations *)

Section Operations.

Context {Env : Type}.
Variable now : Env -> Z.

Implicit Types (this : SqlCache Env) (w : World Env) (e : Env).
Implicit Types (r : Reply) (key : string) (row : Row) (rows : list Row).

Lemma issued_app w (l : list Call) e :
  issued w {| env := e; calls := calls w ++ l |} = l.
Proof. unfold issued. cbn [calls]. apply drop_app_length. Qed.

(** Every way [get] can run, by what the connection answers. *)
Lemma get_cases this key w r1 e1 :
  this_client this (select_text this) (DArray [VStr key]) (env w) = (r1, e1) ->
  get now this key w =
    let w1 := {| env := e1; calls := calls w ++ [select_call this key] |} in
    if truthy (error r1) then (Rejected (error r1), w1)
    else
      match results r1 with
      | RRows (row :: _) =>
          if this_deleteExpiredItems this && isExpired (to_double (now e1)) row
          then
            let r2e2 := this_client this (delete_text this) (DArray [VStr key]) e1 in
            (if truthy (error (fst r2e2)) then Rejected (error (fst r2e2))
             else Fulfilled None,
             {| env := snd r2e2;
                calls := calls w ++ [select_call this key; delete_call this key] |})
          else (Fulfilled (Some (value row)), w1)
      | _ => (Fulfilled None, w1)
      end.
Proof.
  intros Hq1. cbn zeta.
  destruct (truthy (error r1)) eqn:Herr1.
  - unfold get. apply await_rejected.
    rewrite (promisifyQuery_run _ _ _ _ _ _ Hq1), Herr1. reflexivity.
  - rewrite (get_after_read now _ _ _ _ _ Hq1 Herr1). cbn zeta.
    destruct (results r1) as [|[|row rows]|]; try reflexivity.
    destruct (this_deleteExpiredItems this && isExpired (to_double (now e1)) row);
      [|reflexivity].
    destruct (this_client this (delete_text this) (DArray [VStr key]) e1)
      as [r2 e2] eqn:Hq2.
    unfold await.
    rewrite (delete_run this key {| env := e1; calls := _ |} r2 e2 Hq2).
    cbn [calls fst snd]. rewrite <- app_assoc. cbn [app].
    now destruct (truthy (error r2)).
Qed.

Lemma delete_calls this key w :
  calls (snd (delete this key w)) = calls w ++ [delete_call this key].
Proof.
  destruct (this_client this (delete_text this) (DArray [VStr key]) (env w))
    as [r e] eqn:Hq.
  rewrite (delete_run _ _ _ _ _ Hq). reflexivity.
Qed.

(** X1: whatever the connection answers, [get] adds to the client's
    record either the read alone or the read followed by one delete for
    the same key: it never makes more than two calls, never an insert,
    and never a delete before the read. *)
Theorem get_calls_shape this key w :
  issued w (snd (get now this key w)) = [select_call this key]
  \/ issued w (snd (get now this key w)) =
       [select_call this key; delete_call this key].
Proof.
  destruct (this_client this (select_text this) (DArray [VStr key]) (env w))
    as [r1 e1] eqn:Hq1.
  rewrite (get_cases _ _ _ _ _ Hq1). cbn zeta.
  destruct (truthy (error r1)); [left; apply issued_app|].
  destruct (results r1) as [|[|row rows]|]; try (left; apply issued_app).
  destruct (this_deleteExpiredItems this && isExpired (to_double (now e1)) row).
  - right. apply issued_app.
  - left. apply issued_app.
Qed.

(** X2: with [deleteExpiredItems] off, [get] is a plain read: whatever
    the connection answers it makes the read query and nothing else, and
    it never consults the clock, so its outcome is the same under any
    clock. *)
Theorem get_cleanup_off_plain_read this key w (now' : Env -> Z) :
  this_deleteExpiredItems this = false ->
  issued w (snd (get now this key w)) = [select_call this key]
  /\ get now this key w = get now' this key w.
Proof.
  intros Hoff.
  destruct (this_client this (select_text this) (DArray [VStr key]) (env w))
    as [r1 e1] eqn:Hq1.
  split.
  - rewrite (get_cases _ _ _ _ _ Hq1). cbn zeta. rewrite Hoff. cbn [andb].
    destruct (truthy (error r1)); [apply issued_app|].
    destruct (results r1) as [|[|row rows]|]; apply issued_app.
  - unfold get. now rewrite Hoff.
Qed.

(** X3: [get] never invents or substitutes a value: if it is fulfilled
    with a value, then the read succeeded, that value is the [value] of
    the first row the read returned, no other call was made, and, when
    [deleteExpiredItems] is on, that row was not yet expired
    ([Date.now() < expiry_ts * 1000]). *)
Theorem get_value_inversion this key w v w' :
  get now this key w = (Fulfilled (Some v), w') ->
  exists r e row rows,
    this_client this (select_text this) (DArray [VStr key]) (env w) = (r, e)
    /\ truthy (error r) = false
    /\ results r = RRows (row :: rows)
    /\ v = value row
    /\ (this_deleteExpiredItems this = true -> now e < expiry_ts row * 1000)
    /\ w' = {| env := e; calls := calls w ++ [select_call this key] |}.
Proof.
  destruct (this_client this (select_text this) (DArray [VStr key]) (env w))
    as [r1 e1] eqn:Hq1.
  rewrite (get_cases _ _ _ _ _ Hq1). cbn zeta.
  destruct (truthy (error r1)) eqn:Herr1; [discriminate|].
  destruct (results r1) as [|[|row rows]|] eqn:Hrows; try discriminate.
  destruct (this_deleteExpiredItems this) eqn:Hflag; cbn [andb].
  - destruct (isExpired (to_double (now e1)) row) eqn:Hexp.
    + destruct (truthy (error (fst _))); discriminate.
    + intros [= <- <-]. exists r1, e1, row, rows.
      repeat split; try reflexivity; try assumption.
      intros _. now apply isExpired_false_lt.
  - intros [= <- <-]. exists r1, e1, row, rows.
    repeat split; try reflexivity; try assumption. discriminate.
Qed.

(** X4: [get] is fulfilled with [undefined] only for one of two reasons:
    the read succeeded without a first row, or [deleteExpiredItems] is
    on, the first row was expired by the test of [get]
    ([Date.now() >= expiry_ts * 1000] on Numbers, which is the exact
    comparison whenever the clock reads a safe integer) and the
    follow-up delete succeeded. *)
Theorem get_absent_inversion this key w w' :
  get now this key w = (Fulfilled None, w') ->
  exists r e,
    this_client this (select_text this) (DArray [VStr key]) (env w) = (r, e)
    /\ truthy (error r) = false
    /\ (((forall row rows, results r <> RRows (row :: rows))
         /\ w' = {| env := e; calls := calls w ++ [select_call this key] |})
        \/ (exists row rows r2 e2,
              results r = RRows (row :: rows)
              /\ this_deleteExpiredItems this = true
              /\ isExpired (to_double (now e)) row = true
              /\ (Z.abs (now e) <= MAX_SAFE_INTEGER ->
                  expiry_ts row * 1000 <= now e)
              /\ this_client this (delete_text this) (DArray [VStr key]) e = (r2, e2)
              /\ truthy (error r2) = false
              /\ w' = {| env := e2;
                         calls := calls w ++
                           [select_call this key; delete_call this key] |})).
Proof.
  destruct (this_client this (select_text this) (DArray [VStr key]) (env w))
    as [r1 e1] eqn:Hq1.
  rewrite (get_cases _ _ _ _ _ Hq1). cbn zeta.
  destruct (truthy (error r1)) eqn:Herr1; [discriminate|].
  intros Hget. exists r1, e1. split; [reflexivity | split; [exact Herr1|]].
  destruct (results r1) as [|[|row rows]|] eqn:Hrows.
  - left. injection Hget as <-. split; [discriminate | reflexivity].
  - left. injection Hget as <-. split; [discriminate | reflexivity].
  - right.
    destruct (this_deleteExpiredItems this) eqn:Hflag; cbn [andb] in Hget;
      [|discriminate].
    destruct (isExpired (to_double (now e1)) row) eqn:Hexp; [|discriminate].
    destruct (this_client this (delete_text this) (DArray [VStr key]) e1)
      as [r2 e2] eqn:Hq2.
    cbn [fst snd] in Hget.
    destruct (truthy (error r2)) eqn:Herr2; [discriminate|].
    injection Hget as <-.
    exists row, rows, r2, e2.
    repeat split; try reflexivity; try assumption.
    intros Hsafe. rewrite (isExpired_safe _ _ Hsafe) in Hexp.
    now apply Z.geb_le.
  - left. injection Hget as <-. split; [discriminate | reflexivity].
Qed.

(** X5: no operation rejects on its own account: whenever [get], [set]
    or [delete] rejects, the reason is truthy and is the error the
    connection reported for the last query of that very run: for [set]
    and [delete] the one query they make, for [get] the read or, after a
    read that succeeded, the follow-up delete made in the world the read
    left behind. *)
Theorem rejection_comes_from_connection this key v options w x :
  (fst (get now this key w) = Rejected x ->
   truthy x = true
   /\ exists r1 e1,
        this_client this (select_text this) (DArray [VStr key]) (env w)
          = (r1, e1)
        /\ ((x = error r1
             /\ issued w (snd (get now this key w)) = [select_call this key])
            \/ (truthy (error r1) = false
                /\ x = error (fst (this_client this (delete_text this)
                                      (DArray [VStr key]) e1))
                /\ issued w (snd (get now this key w)) =
                     [select_call this key; delete_call this key])))
  /\ (fst (set this key v options w) = Rejected x ->
      let c := insert_call this key v (resolve_ttl this (default ∅ options)) in
      truthy x = true
      /\ x = error (fst (this_client this (text c) (data c) (env w)))
      /\ issued w (snd (set this key v options w)) = [c])
  /\ (fst (delete this key w) = Rejected x ->
      truthy x = true
      /\ x = error (fst (this_client this (delete_text this)
                            (DArray [VStr key]) (env w)))
      /\ issued w (snd (delete this key w)) = [delete_call this key]).
Proof.
  split; [|split].
  - destruct (this_client this (select_text this) (DArray [VStr key]) (env w))
      as [r1 e1] eqn:Hq1.
    rewrite (get_cases _ _ _ _ _ Hq1). cbn zeta.
    destruct (truthy (error r1)) eqn:Herr1.
    { intros [= <-]. split; [assumption|]. exists r1, e1.
      split; [reflexivity|]. left. split; [reflexivity | apply issued_app]. }
    destruct (results r1) as [|[|row rows]|]; try discriminate.
    destruct (this_deleteExpiredItems this && isExpired (to_double (now e1)) row);
      [|discriminate].
    destruct (this_client this (delete_text this) (DArray [VStr key]) e1)
      as [r2 e2] eqn:Hq2.
    cbn [fst snd].
    destruct (truthy (error r2)) eqn:Herr2; [|discriminate].
    intros [= <-]. split; [assumption|]. exists r1, e1.
    split; [reflexivity|]. right.
    split; [exact Herr1 | split; [now rewrite Hq2 | apply issued_app]].
  - intros Hset c.
    destruct (this_client this (text c) (data c) (env w)) as [r e] eqn:Hq.
    rewrite (set_run _ _ _ _ _ _ _ Hq) in Hset |- *. cbn [fst snd] in Hset |- *.
    destruct (truthy (error r)) eqn:Herr; [|discriminate].
    injection Hset as <-.
    split; [assumption | split; [reflexivity | apply issued_app]].
  - intros Hdelete.
    destruct (this_client this (delete_text this) (DArray [VStr key]) (env w))
      as [r e] eqn:Hq.
    rewrite (delete_run _ _ _ _ _ Hq) in Hdelete |- *.
    cbn [fst snd] in Hdelete |- *.
    destruct (truthy (error r)) eqn:Herr; [|discriminate].
    injection Hdelete as <-.
    split; [assumption | split; [reflexivity | apply issued_app]].
Qed.

Lemma set_issued this key v options w :
  issued w (snd (set this key v options w)) =
    [insert_call this key v (resolve_ttl this (default ∅ options))].
Proof. unfold issued. rewrite set_calls. apply drop_app_length. Qed.

Lemma delete_issued this key w :
  issued w (snd (delete this key w)) = [delete_call this key].
Proof. unfold issued. rewrite delete_calls. apply drop_app_length. Qed.

(** The resolved TTL looks at nothing but the [ttl] property of the
    options. *)
Lemma resolve_ttl_ext this (o1 o2 : gmap string Value) :
  o1 !! "ttl" = o2 !! "ttl" -> resolve_ttl this o1 = resolve_ttl this o2.
Proof.
  intros Hsame. unfold resolve_ttl, spread, prop.
  now rewrite !lookup_union, Hsame.
Qed.

(** X6: [set] reads nothing from its options but [ttl]: two option
    objects with the same [ttl] property (both absent, or both present
    with the same value) make [set] behave identically, and a call
    without options behaves like a call with [{}]. *)
Theorem set_ignores_other_options this key v (o1 o2 : gmap string Value) w :
  o1 !! "ttl" = o2 !! "ttl" ->
  set this key v (Some o1) w = set this key v (Some o2) w
  /\ set this key v None w = set this key v (Some ∅) w.
Proof.
  intros Hsame. split; [|reflexivity].
  unfold set. cbn zeta. simpl.
  now rewrite (resolve_ttl_ext this o1 o2 Hsame).
Qed.

(** X7: whatever the options and whatever the connection answers, [set]
    makes exactly one call, an insert whose object has exactly the
    properties [key], [value] and [ttl] ([ttl] is present even when it
    holds [undefined]); nothing else, such as [created_at] or further
    options, is handed to the query. *)
Theorem set_insert_columns this key v options w :
  exists o : gmap string Value,
    issued w (snd (set this key v options w)) =
      [{| text := insert_text this; data := DObject o |}]
    /\ dom o = ({[ "key"; "value"; "ttl" ]} : gset string)
    /\ o !! "key" = Some (VStr key)
    /\ o !! "value" = Some (VStr v)
    /\ o !! "ttl" = Some (resolve_ttl this (default ∅ options)).
Proof.
  eexists. split; [apply set_issued|].
  split; [|split; [|split]].
  - rewrite !dom_insert_L, dom_singleton_L. set_solver.
  - apply lookup_insert_eq.
  - rewrite lookup_insert_ne by discriminate. apply lookup_insert_eq.
  - rewrite !lookup_insert_ne by discriminate. apply lookup_singleton_eq.
Qed.

(** X9: [set] is fulfilled exactly when the connection reports no error
    for the insert, whatever results come with it; either way the insert
    is the only call made. *)
Theorem set_fulfilled_iff this key v options w r e :
  let c := insert_call this key v (resolve_ttl this (default ∅ options)) in
  this_client this (text c) (data c) (env w) = (r, e) ->
  (fst (set this key v options w) = Fulfilled tt <-> truthy (error r) = false)
  /\ snd (set this key v options w) = {| env := e; calls := calls w ++ [c] |}.
Proof.
  intros c Hq. rewrite (set_run _ _ _ _ _ _ _ Hq). cbn [fst snd].
  split; [|reflexivity].
  destruct (truthy (error r)); split; intros H; try reflexivity; discriminate.
Qed.

(** ** The table every query addresses *)

Lemma contains_middle (pre sub suf : string) : contains (pre +:+ sub +:+ suf) sub.
Proof. now exists pre, suf. Qed.

Lemma constructor_table (o : SqlCacheOptions Env) this db :
  constructor (Some o) = Normal this ->
  databaseName o = Some db ->
  table this =
    db +:+ "." +:+
      match tableName o with Some (String a s) => String a s | _ => "cache" end.
Proof.
  unfold constructor. intros Hnew Hdb. rewrite Hdb in Hnew.
  destruct (client o); [|discriminate].
  destruct db as [|a db]; [discriminate|].
  injection Hnew as <-. unfold table. cbn [this_databaseName this_tableName].
  now destruct (tableName o) as [[|b t]|].
Qed.

(** X8: on an instance constructed from a configuration, every query
    that [get], [set] or [delete] issues addresses the table as
    [databaseName.tableName] with the configured names verbatim, and
    with [cache] as table name when [tableName] is absent or empty. *)
Theorem queries_address_configured_table
    (o : SqlCacheOptions Env) this db key v options w :
  constructor (Some o) = Normal this ->
  databaseName o = Some db ->
  let ident :=
    db +:+ "." +:+
      match tableName o with Some (String a s) => String a s | _ => "cache" end in
  Forall (fun c => contains (text c) ident)
    (issued w (snd (get now this key w))
     ++ issued w (snd (set this key v options w))
     ++ issued w (snd (delete this key w))).
Proof.
  intros Hnew Hdb ident.
  assert (Htable : table this = ident) by now apply constructor_table.
  assert (Hsel : contains (text (select_call this key)) ident).
  { cbn [text select_call]. unfold select_text. rewrite Htable.
    apply contains_middle. }
  assert (Hdel : contains (text (delete_call this key)) ident).
  { cbn [text delete_call]. unfold delete_text. rewrite Htable.
    apply contains_middle. }
  rewrite set_issued, delete_issued.
  apply Forall_app. split.
  - destruct (get_calls_shape this key w) as [-> | ->]; repeat constructor;
      assumption.
  - repeat constructor; [|exact Hdel].
    cbn [text insert_call]. unfold insert_text. rewrite Htable.
    apply contains_middle.
Qed.

End Operations.

(** ** The further properties on the scripted connection *)

Lemma get_cleanup_off_plain_read_witness :
  issued (mock_world [ok_rows [stale_row]])
    (snd (get clock (mock_cache false) "key-123" (mock_world [ok_rows [stale_row]])))
    = [select_call (mock_cache false) "key-123"]
  /\ get clock (mock_cache false) "key-123" (mock_world [ok_rows [stale_row]]) =
     get (fun _ => 0) (mock_cache false) "key-123" (mock_world [ok_rows [stale_row]]).
Proof.
  apply (get_cleanup_off_plain_read clock (mock_cache false) "key-123"
           (mock_world [ok_rows [stale_row]]) (fun _ => 0)).
  reflexivity.
Defined.

Lemma get_value_inversion_witness :
  exists r e row rows,
    mock_query (select_text (mock_cache true)) (DArray [VStr "key-123"])
      (mock_env [ok_rows [fresh_row]]) = (r, e)
    /\ truthy (error r) = false
    /\ results r = RRows (row :: rows)
    /\ "{}" = value row
    /\ (true = true -> clock e < expiry_ts row * 1000)
    /\ {| env := mock_env []; calls := [select_call (mock_cache true) "key-123"] |} =
       {| env := e; calls := [select_call (mock_cache true) "key-123"] |}.
Proof.
  apply (get_value_inversion clock (mock_cache true) "key-123"
           (mock_world [ok_rows [fresh_row]]) "{}"
           {| env := mock_env [];
              calls := [select_call (mock_cache true) "key-123"] |}).
  reflexivity.
Defined.

Lemma get_absent_inversion_witness :
  exists r e,
    mock_query (select_text (mock_cache true)) (DArray [VStr "key-123"])
      (mock_env [ok_rows [stale_row]; ok_packet 1]) = (r, e)
    /\ truthy (error r) = false
    /\ (((forall row rows, results r <> RRows (row :: rows))
         /\ {| env := mock_env [];
               calls := [select_call (mock_cache true) "key-123";
                         delete_call (mock_cache true) "key-123"] |} =
            {| env := e; calls := [select_call (mock_cache true) "key-123"] |})
        \/ (exists row rows r2 e2,
              results r = RRows (row :: rows)
              /\ true = true
              /\ isExpired (to_double (clock e)) row = true
              /\ (Z.abs (clock e) <= MAX_SAFE_INTEGER ->
                  expiry_ts row * 1000 <= clock e)
              /\ mock_query (delete_text (mock_cache true))
                   (DArray [VStr "key-123"]) e = (r2, e2)
              /\ truthy (error r2) = false
              /\ {| env := mock_env [];
                    calls := [select_call (mock_cache true) "key-123";
                              delete_call (mock_cache true) "key-123"] |} =
                 {| env := e2;
                    calls := [select_call (mock_cache true) "key-123";
                              delete_call (mock_cache true) "key-123"] |})).
Proof.
  apply (get_absent_inversion clock (mock_cache true) "key-123"
           (mock_world [ok_rows [stale_row]; ok_packet 1])
           {| env := mock_env [];
              calls := [select_call (mock_cache true) "key-123";
                        delete_call (mock_cache true) "key-123"] |}).
  reflexivity.
Defined.

Lemma rejection_comes_from_connection_witness :
  (truthy (VBool true) = true
   /\ exists r1 e1,
        mock_query (select_text (mock_cache true)) (DArray [VStr "key-123"])
          (mock_env [ok_rows [stale_row]; failure (VBool true)]) = (r1, e1)
        /\ ((VBool true = error r1
             /\ issued (mock_world [ok_rows [stale_row]; failure (VBool true)])
                  (snd (get clock (mock_cache true) "key-123"
                          (mock_world [ok_rows [stale_row]; failure (VBool true)])))
                = [select_call (mock_cache true) "key-123"])
            \/ (truthy (error r1) = false
                /\ VBool true =
                   error (fst (mock_query (delete_text (mock_cache true))
                                 (DArray [VStr "key-123"]) e1))
                /\ issued (mock_world [ok_rows [stale_row]; failure (VBool true)])
                     (snd (get clock (mock_cache true) "key-123"
                             (mock_world [ok_rows [stale_row]; failure (VBool true)])))
                   = [select_call (mock_cache true) "key-123";
                      delete_call (mock_cache true) "key-123"])))
  /\ (truthy (VError "ER_DUP_ENTRY") = true
      /\ issued (mock_world [failure (VError "ER_DUP_ENTRY")])
           (snd (set (mock_cache true) "key-123" "{}" None
                   (mock_world [failure (VError "ER_DUP_ENTRY")])))
         = [insert_call (mock_cache true) "key-123" "{}" (VNum 300)])
  /\ (truthy (VBool true) = true
      /\ issued (mock_world [failure (VBool true)])
           (snd (delete (mock_cache true) "key-123"
                   (mock_world [failure (VBool true)])))
         = [delete_call (mock_cache true) "key-123"]).
Proof.
  split; [|split].
  - apply (rejection_comes_from_connection clock (mock_cache true) "key-123"
             "{}" None (mock_world [ok_rows [stale_row]; failure (VBool true)])
             (VBool true)).
    reflexivity.
  - destruct (rejection_comes_from_connection clock (mock_cache true) "key-123"
                "{}" None (mock_world [failure (VError "ER_DUP_ENTRY")])
                (VError "ER_DUP_ENTRY"))
      as (_ & Hset & _).
    destruct (Hset eq_refl) as (Htruthy & _ & Hissued).
    split; [exact Htruthy | exact Hissued].
  - destruct (rejection_comes_from_connection clock (mock_cache true) "key-123"
                "{}" None (mock_world [failure (VBool true)]) (VBool true))
      as (_ & _ & Hdelete).
    destruct (Hdelete eq_refl) as (Htruthy & _ & Hissued).
    split; [exact Htruthy | exact Hissued].
Defined.

Lemma set_ignores_other_options_witness :
  set (mock_cache true) "key-123" "{}"
      (Some {[ "ttl" := VNum 900; "tags" := VStr "a" ]}) (mock_world []) =
  set (mock_cache true) "key-123" "{}"
      (Some {[ "ttl" := VNum 900 ]}) (mock_world []).
Proof.
  apply (set_ignores_other_options (mock_cache true) "key-123" "{}"
           {[ "ttl" := VNum 900; "tags" := VStr "a" ]} {[ "ttl" := VNum 900 ]}
           (mock_world [])).
  vm_compute. reflexivity.
Defined.

Lemma set_fulfilled_iff_witness :
  (fst (set (mock_cache true) "key-123" "{}" None (mock_world [ok_packet 1]))
     = Fulfilled tt <-> truthy VNull = false)
  /\ snd (set (mock_cache true) "key-123" "{}" None (mock_world [ok_packet 1])) =
       {| env := mock_env [];
          calls := [insert_call (mock_cache true) "key-123" "{}" (VNum 300)] |}.
Proof.
  apply (set_fulfilled_iff (mock_cache true) "key-123" "{}" None
           (mock_world [ok_packet 1]) (ok_packet 1) (mock_env [])).
  reflexivity.
Defined.

Lemma queries_address_configured_table_witness :
  Forall (fun c => contains (text c) "test.test_table")
    (issued (mock_world [ok_rows [stale_row]])
       (snd (get clock custom_cache "key-123" (mock_world [ok_rows [stale_row]])))
     ++ issued (mock_world [ok_rows [stale_row]])
          (snd (set custom_cache "key-123" "{}" None (mock_world [ok_rows [stale_row]])))
     ++ issued (mock_world [ok_rows [stale_row]])
          (snd (delete custom_cache "key-123" (mock_world [ok_rows [stale_row]])))).
Proof.
  apply (queries_address_configured_table clock customConfig custom_cache "test"
           "key-123" "{}" None (mock_world [ok_rows [stale_row]]));
    reflexivity.
Defined.

End Cache.
